(** * expo-apple-intelligence: the bridging layer, embedded and verified

    The development follows the three layers of the package:

    - [src/AppleIntelligence.ts]: the application-facing API
      ([isAvailable], [getAvailabilityStatus], [generateResponse],
      [createSession]);
    - the iOS module (Swift, [AppleIntelligenceModule: Module]) with its
      process-wide [SessionStore];
    - the Android module (Kotlin), a stub.

    Asynchronous functions are computations over an explicit world: they
    take the world, and give back the settled promise (resolved with a
    value, or rejected with what was thrown) and the world after the call.
    The on-device model runtime (FoundationModels) is opaque: it is a
    parameter of the development. *)

From Stdlib Require Import String List Bool.
From stdpp Require Import base option gmap strings.

Import ListNotations.
Local Open Scope string_scope.

(** ** Data model ([src/AppleIntelligence.ts], lines 6-47) *)

(** [status: 'available' | 'unavailable' | 'unsupported' | 'unknown'] *)
Inductive Status := available | unavailable | unsupported | unknown.

Definition Status_eqb (a b : Status) : bool :=
  match a, b with
  | available, available | unavailable, unavailable
  | unsupported, unsupported | unknown, unknown => true
  | _, _ => false
  end.

(** [interface AvailabilityStatus]; an optional field is an [option]. *)
Record AvailabilityStatus := {
  status : Status;
  isAvailable_flag : bool;      (* the field [isAvailable] *)
  reason : option string;
  message : string
}.

(** [interface GenerateResponseResult] *)
Record GenerateResponseResult := {
  success : bool;
  response : option string;
  error : option string
}.

(** The two object literals the code builds everywhere. *)
Definition succeeded (text : string) : GenerateResponseResult :=
  {| success := true; response := Some text; error := None |}.

Definition failed (msg : string) : GenerateResponseResult :=
  {| success := false; response := None; error := Some msg |}.

(** What a [catch] clause can receive: an [Error] with its message, or
    some other value ([error instanceof Error] is false). *)
Inductive Thrown := ErrorObj (msg : string) | NonError.

(** [error instanceof Error ? error.message : fallback] *)
Definition message_or (fallback : string) (e : Thrown) : string :=
  match e with
  | ErrorObj m => m
  | NonError => fallback
  end.

(** A settled promise. *)
Inductive Outcome (A : Type) :=
| Resolved (a : A)
| Rejected (e : Thrown).
Arguments Resolved {A} a.
Arguments Rejected {A} e.

Definition resolves {A} (o : Outcome A) : bool :=
  match o with Resolved _ => true | Rejected _ => false end.

(** JavaScript values that can be handed to [generateResponse]
    ([null as any] type-checks). *)
Inductive JsValue :=
| JsUndefined
| JsNull
| JsBoolean (b : bool)
| JsString (s : string)
| JsObject.

(** [!v] *)
Definition js_not (v : JsValue) : bool :=
  match v with
  | JsUndefined | JsNull => true
  | JsBoolean b => negb b
  | JsString s => if decide (s = EmptyString) then true else false
  | JsObject => false
  end.

(** [typeof v !== 'string'] *)
Definition js_not_string (v : JsValue) : bool :=
  match v with
  | JsString _ => false
  | _ => true
  end.

(** ** The platform *)

(** [SystemLanguageModel.default.availability]: [.available],
    [.unavailable(reason)] with [String(describing: reason)], or a case
    the module was not compiled against ([@unknown default]). *)
Inductive Availability :=
| ModelAvailable
| ModelUnavailable (reasonString : string)
| ModelFutureCase.

(** What [session.respond(to:)] does: it returns a response with its
    [content], or throws an error with its [localizedDescription]. *)
Inductive Reply :=
| Content (text : string)
| Failure (localizedDescription : string).

(** What is observable of a run. *)
Inductive Event :=
| Invoke (fn : string)                   (* JS calls a native function *)
| NewSession (h : nat)                   (* [LanguageModelSession()] *)
| Respond (h : nat) (prompt : string).   (* [session.respond(to:)] *)

Section Bridge.

(** The opaque runtime: the state of a conversational handle, the
    state of a new one, what a turn does to it, and the stream of
    [UUID().uuidString] values. *)
Context {SessionState : Type}.
Variable empty_session : SessionState.
Variable respond_to : SessionState -> string -> Reply * SessionState.
Variable uuidString : nat -> string.

(** [LanguageModelSession] is a class: the registry holds references.
    [objects] gives the state of every session object by reference,
    [allocated] counts the objects made so far. *)
Record World := {
  availability : Availability;
  objects : nat -> SessionState;
  allocated : nat;
  sessions : gmap string nat;      (* [SessionStore.shared.sessions] *)
  uuids_drawn : nat;
  trace : list Event
}.

Definition M (A : Type) : Type := World -> Outcome A * World.

Definition ret {A} (a : A) : M A := fun w => (Resolved a, w).

Definition throw {A} (e : Thrown) : M A := fun w => (Rejected e, w).

Definition bind {A B} (m : M A) (f : A -> M B) : M B :=
  fun w =>
    match m w with
    | (Resolved a, w') => f a w'
    | (Rejected e, w') => (Rejected e, w')
    end.

(** [try { m } catch (e) { h e }] *)
Definition try_catch {A} (m : M A) (h : Thrown -> M A) : M A :=
  fun w =>
    match m w with
    | (Resolved a, w') => (Resolved a, w')
    | (Rejected e, w') => h e w'
    end.

Notation "'let*' x := m 'in' k" := (bind m (fun x => k))
  (at level 10, x name, m at level 100, k at level 200,
   format "'let*'  x  :=  m  'in' '//' k").
Notation "m >> k" := (bind m (fun _ => k))
  (at level 62, right associativity).

Definition set_objects (f : nat -> SessionState) (n : nat) (w : World) : World :=
  {| availability := availability w; objects := f; allocated := n;
     sessions := sessions w; uuids_drawn := uuids_drawn w; trace := trace w |}.

Definition set_sessions (s : gmap string nat) (w : World) : World :=
  {| availability := availability w; objects := objects w;
     allocated := allocated w; sessions := s;
     uuids_drawn := uuids_drawn w; trace := trace w |}.

Definition set_uuids_drawn (n : nat) (w : World) : World :=
  {| availability := availability w; objects := objects w;
     allocated := allocated w; sessions := sessions w;
     uuids_drawn := n; trace := trace w |}.

Definition log (ev : Event) (w : World) : World :=
  {| availability := availability w; objects := objects w;
     allocated := allocated w; sessions := sessions w;
     uuids_drawn := uuids_drawn w; trace := trace w ++ [ev] |}.

Definition update (h : nat) (s : SessionState) (f : nat -> SessionState)
  : nat -> SessionState :=
  fun h' => if Nat.eqb h' h then s else f h'.

(** [SystemLanguageModel.default.isAvailable] *)
Definition model_isAvailable : M bool :=
  fun w =>
    (Resolved match availability w with ModelAvailable => true | _ => false end, w).

Definition model_availability : M Availability :=
  fun w => (Resolved (availability w), w).

(** [LanguageModelSession()] *)
Definition new_session : M nat :=
  fun w =>
    let h := allocated w in
    (Resolved h,
     log (NewSession h) (set_objects (update h empty_session (objects w)) (S h) w)).

(** [session.respond(to: prompt)], the reply or the error as a value. *)
Definition respond (h : nat) (prompt : string) : M Reply :=
  fun w =>
    let (r, s') := respond_to (objects w h) prompt in
    (Resolved r,
     log (Respond h prompt) (set_objects (update h s' (objects w)) (allocated w) w)).

(** [UUID().uuidString] *)
Definition UUID : M string :=
  fun w => (Resolved (uuidString (uuids_drawn w)), set_uuids_drawn (S (uuids_drawn w)) w).

Definition lookup_session (sessionId : string) : M (option nat) :=
  fun w => (Resolved (sessions w !! sessionId), w).

(** [SessionStore.shared.sessions[sessionId] = session] *)
Definition store_session (sessionId : string) (h : nat) : M unit :=
  fun w => (Resolved tt, set_sessions (<[sessionId := h]> (sessions w)) w).

(** [SessionStore.shared.sessions.removeValue(forKey: sessionId)] *)
Definition remove_session (sessionId : string) : M unit :=
  fun w => (Resolved tt, set_sessions (delete sessionId (sessions w)) w).

(** ** The iOS module (Swift)

    [capable] stands for the guard every function opens with:
    [#if canImport(FoundationModels)] and
    the check of [#available] for iOS 26.0 and macOS 26.0. *)
Section Ios.

Variable capable : bool.

Definition ios_isAvailable : M bool :=
  if capable then model_isAvailable else ret false.

Definition ios_getAvailabilityStatus : M AvailabilityStatus :=
  if capable then
    let* a := model_availability in
    match a with
    | ModelAvailable =>
        ret {| status := available; isAvailable_flag := true; reason := None;
               message := "Apple Intelligence is ready to use" |}
    | ModelUnavailable reasonString =>
        ret {| status := unavailable; isAvailable_flag := false;
               reason := Some reasonString;
               message := "Apple Intelligence is not available: " ++ reasonString |}
    | ModelFutureCase =>
        ret {| status := unknown; isAvailable_flag := false; reason := None;
               message := "Unknown availability status" |}
    end
  else
    ret {| status := unsupported; isAvailable_flag := false; reason := None;
           message := "This iOS version does not support Foundation Models (requires iOS 26+)" |}.

(** The [do { try await session.respond(..) } catch { .. }] of the two
    generation functions: the only call that can throw is [respond]. *)
Definition respond_result (h : nat) (prompt : string) : M GenerateResponseResult :=
  let* r := respond h prompt in
  match r with
  | Content text => ret (succeeded text)
  | Failure description => ret (failed description)
  end.

Definition ios_generateResponse (prompt : string) : M GenerateResponseResult :=
  if capable then
    let* ok := model_isAvailable in
    if negb ok then
      ret (failed "Apple Intelligence is not available on this device")
    else
      let* session := new_session in
      respond_result session prompt
  else
    ret (failed "Foundation Models framework is not available (requires iOS 26+)").

(** [if let systemPrompt = systemPrompt, !systemPrompt.isEmpty] *)
Definition seeding_prompt (systemPrompt : option string) : option string :=
  match systemPrompt with
  | Some p => if decide (p = EmptyString) then None else Some p
  | None => None
  end.

(** [_ = try await session.respond(to: "System: \(systemPrompt)")] *)
Definition seed (session : nat) (systemPrompt : option string) : M unit :=
  match seeding_prompt systemPrompt with
  | Some p =>
      let* r := respond session ("System: " ++ p) in
      match r with
      | Content _ => ret tt
      | Failure description => throw (ErrorObj description)
      end
  | None => ret tt
  end.

Definition ios_createSession (systemPrompt : option string) : M string :=
  if capable then
    let* ok := model_isAvailable in
    if negb ok then
      throw (ErrorObj "Apple Intelligence is not available")
    else
      let* sessionId := UUID in
      let* session := new_session in
      seed session systemPrompt >>
      store_session sessionId session >>
      ret sessionId
  else
    throw (ErrorObj "Foundation Models not available").

Definition ios_sendSessionMessage (sessionId message : string)
  : M GenerateResponseResult :=
  if capable then
    let* found := lookup_session sessionId in
    match found with
    | None => ret (failed "Session not found. Create a new session first.")
    | Some session => respond_result session message
    end
  else
    ret (failed "Foundation Models not available").

Definition ios_resetSession (sessionId : string) : M unit :=
  if capable then
    let* found := lookup_session sessionId in
    match found with
    | Some _ =>
        let* session := new_session in
        store_session sessionId session
    | None => ret tt
    end
  else
    ret tt.

Definition ios_endSession (sessionId : string) : M unit :=
  if capable then remove_session sessionId else ret tt.

End Ios.

(** ** The Android module (Kotlin): a stub *)

Definition android_isAvailable : M bool := ret false.

Definition android_getAvailabilityStatus : M AvailabilityStatus :=
  ret {| status := unsupported; isAvailable_flag := false; reason := None;
         message := "Apple Intelligence is only available on iOS devices" |}.

Definition android_generateResponse (_ : string) : M GenerateResponseResult :=
  ret (failed "Apple Intelligence is only available on iOS devices").

Definition android_createSession (_ : option string) : M string :=
  throw (ErrorObj "Apple Intelligence is only available on iOS devices").

Definition android_sendSessionMessage (_ _ : string) : M GenerateResponseResult :=
  ret (failed "Apple Intelligence is only available on iOS devices").

Definition android_resetSession (_ : string) : M unit := ret tt.

(** ** The native module as JavaScript sees it

    The six functions of [declare class AppleIntelligenceModuleType]
    ([src/AppleIntelligenceModule.ts]), and [endSession], which the
    class does not declare and a module may or may not define. *)
Record NativeModule := {
  nm_isAvailable : M bool;
  nm_getAvailabilityStatus : M AvailabilityStatus;
  nm_generateResponse : string -> M GenerateResponseResult;
  nm_createSession : option string -> M string;
  nm_sendSessionMessage : string -> string -> M GenerateResponseResult;
  nm_resetSession : string -> M unit;
  nm_endSession : option (string -> M unit)
}.

(** The [AsyncFunction] entries of the Swift [definition()]. *)
Definition ios_module (capable : bool) : NativeModule :=
  {| nm_isAvailable := ios_isAvailable capable;
     nm_getAvailabilityStatus := ios_getAvailabilityStatus capable;
     nm_generateResponse := ios_generateResponse capable;
     nm_createSession := ios_createSession capable;
     nm_sendSessionMessage := ios_sendSessionMessage capable;
     nm_resetSession := ios_resetSession capable;
     nm_endSession := Some (ios_endSession capable) |}.

(** The [AsyncFunction] entries of the Kotlin [definition()]: there is
    no entry named [endSession]. *)
Definition android_module : NativeModule :=
  {| nm_isAvailable := android_isAvailable;
     nm_getAvailabilityStatus := android_getAvailabilityStatus;
     nm_generateResponse := android_generateResponse;
     nm_createSession := android_createSession;
     nm_sendSessionMessage := android_sendSessionMessage;
     nm_resetSession := android_resetSession;
     nm_endSession := None |}.

(** A bridge on which every call is rejected with [e]: what the
    [catch] clauses of [src/AppleIntelligence.ts] are there for. *)
Definition rejecting_module (e : Thrown) : NativeModule :=
  {| nm_isAvailable := throw e;
     nm_getAvailabilityStatus := throw e;
     nm_generateResponse := fun _ => throw e;
     nm_createSession := fun _ => throw e;
     nm_sendSessionMessage := fun _ _ => throw e;
     nm_resetSession := fun _ => throw e;
     nm_endSession := None |}.

Inductive Platform :=
| Ios (capable : bool)
| Android
| Rejecting (e : Thrown).

Definition native (p : Platform) : NativeModule :=
  match p with
  | Ios capable => ios_module capable
  | Android => android_module
  | Rejecting e => rejecting_module e
  end.

(** The seven downward operations. *)
Inductive Operation :=
| OpIsAvailable | OpGetAvailabilityStatus | OpGenerateResponse
| OpCreateSession | OpSendSessionMessage | OpResetSession | OpEndSession.

Definition defines (N : NativeModule) (op : Operation) : bool :=
  match op with
  | OpEndSession => match nm_endSession N with Some _ => true | None => false end
  | _ => true
  end.

(** ** [src/AppleIntelligence.ts] *)

(** [let moduleLoadError: string | null = null;]
    [let isModuleAvailable = false;] *)
Record JsModule := {
  isModuleAvailable : bool;
  moduleLoadError : option string
}.

(** What evaluating [typeof AppleIntelligenceModule?.isAvailable]
    meets at load time: the evaluation throws, the binding is
    [undefined] or [null], or it is an object, whose [isAvailable] is a
    function or not. *)
Inductive Binding :=
| BindingThrows (e : Thrown)
| BindingNullish
| BindingObject (isAvailable_is_function : bool).

(** Lines 50-59: the [try] block that sets the two variables. *)
Definition load (b : Binding) : JsModule :=
  match b with
  | BindingThrows e =>
      {| isModuleAvailable := false;
         moduleLoadError := Some (message_or "Unknown error loading native module" e) |}
  | BindingNullish =>
      {| isModuleAvailable := false; moduleLoadError := None |}
  | BindingObject f =>
      {| isModuleAvailable := f; moduleLoadError := None |}
  end.

(** A call through the bridge, [AppleIntelligenceModule.fn(..)]. *)
Definition invoke {A} (fn : string) (m : M A) : M A :=
  fun w => m (log (Invoke fn) w).

Section Api.

Variable js : JsModule.
Variable AppleIntelligenceModule : NativeModule.

Definition isAvailable : M bool :=
  if negb (isModuleAvailable js) then
    ret false
  else
    try_catch (invoke "isAvailable" (nm_isAvailable AppleIntelligenceModule))
              (fun _ => ret false).

(** [moduleLoadError ? `Native module failed to load: ..` : '..'];
    the empty string is falsy. *)
Definition load_message : string :=
  match moduleLoadError js with
  | Some e =>
      if decide (e = EmptyString) then "Apple Intelligence is only available on iOS 26+ devices"
      else "Native module failed to load: " ++ e
  | None => "Apple Intelligence is only available on iOS 26+ devices"
  end.

Definition getAvailabilityStatus : M AvailabilityStatus :=
  if negb (isModuleAvailable js) then
    ret {| status := unsupported; isAvailable_flag := false; reason := None;
           message := load_message |}
  else
    try_catch
      (invoke "getAvailabilityStatus" (nm_getAvailabilityStatus AppleIntelligenceModule))
      (fun e =>
         ret {| status := unknown; isAvailable_flag := false; reason := None;
                message := "Error checking availability: "
                           ++ message_or "Unknown error" e |}).

(** After the guard [!prompt || typeof prompt !== 'string'] the prompt
    is a non-empty string ([guard_passes_string] below); the last
    branch of the [match] is never taken. *)
Definition generateResponse (prompt : JsValue) : M GenerateResponseResult :=
  if negb (isModuleAvailable js) then
    ret (failed "Apple Intelligence is not available on this device")
  else if js_not prompt || js_not_string prompt then
    ret (failed "Prompt must be a non-empty string")
  else
    match prompt with
    | JsString p =>
        try_catch
          (invoke "generateResponse" (nm_generateResponse AppleIntelligenceModule p))
          (fun e => ret (failed (message_or "Unknown error generating response" e)))
    | _ => ret (failed "Prompt must be a non-empty string")
    end.

(** [interface SessionOptions] *)
Record SessionOptions := { systemPrompt : option string }.

(** [interface Session]: the object holds [id]; its two closures are
    [sendMessage] and [reset] below, which capture [sessionId]. *)
Record Session := { id : string }.

Definition sendMessage (s : Session) (message : string) : M GenerateResponseResult :=
  invoke "sendSessionMessage"
         (nm_sendSessionMessage AppleIntelligenceModule (id s) message).

Definition reset (s : Session) : M unit :=
  invoke "resetSession" (nm_resetSession AppleIntelligenceModule (id s)).

(** [options?.systemPrompt] *)
Definition systemPrompt_of (options : option SessionOptions) : option string :=
  match options with
  | Some o => systemPrompt o
  | None => None
  end.

Definition createSession (options : option SessionOptions) : M Session :=
  if negb (isModuleAvailable js) then
    throw (ErrorObj "Apple Intelligence is not available on this device")
  else
    try_catch
      (let* sessionId :=
           invoke "createSession"
                  (nm_createSession AppleIntelligenceModule (systemPrompt_of options)) in
       ret {| id := sessionId |})
      (fun e =>
         throw (ErrorObj ("Failed to create session: "
                          ++ message_or "Unknown error" e))).

End Api.

(** ** Runs of the iOS module

    The calls that reach the native side, and the worlds a process can
    be in: it starts with an empty registry and makes calls. *)
Inductive NativeCall :=
| CallGenerateResponse (prompt : string)
| CallCreateSession (systemPrompt : option string)
| CallSendSessionMessage (sessionId message : string)
| CallResetSession (sessionId : string)
| CallEndSession (sessionId : string).

Definition after (capable : bool) (c : NativeCall) (w : World) : World :=
  match c with
  | CallGenerateResponse prompt => snd (ios_generateResponse capable prompt w)
  | CallCreateSession sp => snd (ios_createSession capable sp w)
  | CallSendSessionMessage sid message => snd (ios_sendSessionMessage capable sid message w)
  | CallResetSession sid => snd (ios_resetSession capable sid w)
  | CallEndSession sid => snd (ios_endSession capable sid w)
  end.

Inductive reachable (capable : bool) : World -> Prop :=
| reachable_start (w : World) :
    sessions w = ∅ -> reachable capable w
| reachable_call (w : World) (c : NativeCall) :
    reachable capable w -> reachable capable (after capable c w).

End Bridge.

(** ** A runtime to run the definitions on

    A handle remembers the prompts it was sent; a turn fails on the
    prompt [System: boom] and echoes every other one. *)

Definition echo_respond (history : list string) (prompt : string)
  : Reply * list string :=
  (if String.eqb prompt "System: boom" then Failure "boom"
   else Content ("echo: " ++ prompt),
   (history ++ [prompt])%list).

Definition echo_uuid (n : nat) : string :=
  match n with
  | 0 => "7F3A"
  | 1 => "C1D2"
  | _ => "E5F6"
  end.

(** The world at process start: nothing allocated, an empty registry. *)
Definition start (a : Availability) : @World (list string) :=
  {| availability := a; objects := fun _ => []; allocated := 0;
     sessions := ∅; uuids_drawn := 0; trace := [] |}.

Definition echo_ios (capable : bool) : @NativeModule (list string) :=
  ios_module [] echo_respond echo_uuid capable.

(** A world with one registered session, reached by a call. *)
Definition one_session : @World (list string) :=
  snd (ios_createSession [] echo_respond echo_uuid true (Some "Be brief")
         (start ModelAvailable)).

(** Worlds with two and with three sessions. The third and every later
    draw of [echo_uuid] give the same identifier. *)
Definition two_sessions : @World (list string) :=
  after [] echo_respond echo_uuid true (CallCreateSession None) one_session.

Definition three_sessions : @World (list string) :=
  after [] echo_respond echo_uuid true (CallCreateSession None) two_sessions.

(** A conversation on an available platform: a session seeded with a
    system prompt, a message, a reset, another message. *)
Definition conversation
  : @M (list string) (string * GenerateResponseResult * GenerateResponseResult) :=
  let js := load (BindingObject true) in
  bind (createSession js (echo_ios true) (Some {| systemPrompt := Some "p" |}))
    (fun s =>
  bind (sendMessage (echo_ios true) s "hello") (fun r1 =>
  bind (reset (echo_ios true) s) (fun _ =>
  bind (sendMessage (echo_ios true) s "hi again") (fun r2 =>
  ret (id s, r1, r2))))).

(** ** What a reachable world satisfies *)

(** The registry is only written behind the availability guard, and it
    only holds handles that were allocated. *)
Record consistent {SessionState} (capable : bool) (w : @World SessionState) : Prop := {
  registry_gated : capable = false -> sessions w = ∅;
  handles_allocated : forall sessionId h, sessions w !! sessionId = Some h -> h < allocated w
}.

(** [GenerateResponseResult]: exactly one payload field. *)
Definition one_payload (r : GenerateResponseResult) : Prop :=
  (is_Some (response r) <-> success r = true) /\
  (is_Some (error r) <-> success r = false) /\
  ~ (is_Some (response r) /\ is_Some (error r)).

(** [AvailabilityStatus]: the flag agrees with the status. *)
Definition flag_agrees (s : AvailabilityStatus) : Prop :=
  isAvailable_flag s = true <-> status s = available.

(** The model service cannot be used: the bridge did not load, or the
    native side reports that it is not ready or not there. *)
Definition service_unavailable {SessionState} (js : JsModule) (p : Platform)
    (w : @World SessionState) : bool :=
  negb (isModuleAvailable js) ||
  match p with
  | Ios capable =>
      negb capable ||
      match availability w with ModelAvailable => false | _ => true end
  | Android => true
  | Rejecting _ => true
  end.

(** The result a generation function builds from what the turn gave:
    the [return] of the [do] block or the one of its [catch]. *)
Definition result_of_reply (r : Reply) : GenerateResponseResult :=
  match r with
  | Content text => succeeded text
  | Failure description => failed description
  end.

(** No two identifiers hold the same session object. *)
Definition registry_injective {SessionState} (w : @World SessionState) : Prop :=
  forall id1 id2 h,
    sessions w !! id1 = Some h -> sessions w !! id2 = Some h -> id1 = id2.

(** The turns of a trace. *)
Fixpoint turns (tr : list Event) : nat :=
  match tr with
  | [] => 0
  | Respond _ _ :: rest => S (turns rest)
  | _ :: rest => turns rest
  end.

(** [reason] is there exactly for the status [unavailable]. *)
Definition reason_agrees (s : AvailabilityStatus) : Prop :=
  is_Some (reason s) <-> status s = unavailable.

(** ** Properties *)

Ltac unfold_monad :=
  unfold invoke, try_catch, bind, ret, throw in *.

Ltac unfold_runtime :=
  unfold respond_result, seed, new_session, respond, UUID, lookup_session,
    store_session, remove_session, model_isAvailable, model_availability in *.

(** Runs a computation symbolically, as far as its tests allow. *)
Ltac run := unfold_runtime; unfold_monad; simpl.

Ltac payload_cases :=
  unfold one_payload, is_Some; simpl; repeat split;
  first [ discriminate
        | by intros [? ?]
        | by intros [[? ?] [? ?]]
        | intros; eauto ].

Lemma one_payload_succeeded (text : string) : one_payload (succeeded text).
Proof. payload_cases. Qed.

Lemma one_payload_failed (msg : string) : one_payload (failed msg).
Proof. payload_cases. Qed.

Create HintDb bridge.

#[local] Hint Resolve one_payload_succeeded one_payload_failed : bridge.

(** [!prompt || typeof prompt !== 'string'] is false exactly on the
    non-empty strings. *)
Lemma guard_passes_string (prompt : JsValue) :
  js_not prompt || js_not_string prompt = false <->
  exists p, prompt = JsString p /\ p <> EmptyString.
Proof.
  split.
  - destruct prompt as [| | b | s |]; simpl; try discriminate.
    + by rewrite orb_true_r.
    + destruct (decide (s = EmptyString)); [discriminate|]. eauto.
  - intros (p & -> & Hp). simpl. by destruct (decide (p = EmptyString)).
Qed.

Section Properties.

Context {SessionState : Type}.
Variable empty_session : SessionState.
Variable respond_to : SessionState -> string -> Reply * SessionState.
Variable uuidString : nat -> string.

Abbreviation World := (@World SessionState).
Abbreviation NativeModule := (@NativeModule SessionState).
Abbreviation native := (native empty_session respond_to uuidString).

(** *** The native functions settle the way their bodies say *)

Lemma ios_getAvailabilityStatus_resolves capable (w : World) :
  exists s, ios_getAvailabilityStatus capable w = (Resolved s, w) /\ flag_agrees s.
Proof.
  unfold ios_getAvailabilityStatus, flag_agrees.
  destruct capable; run.
  - destruct (availability w); eexists; (split; [reflexivity|]); simpl;
      split; congruence.
  - eexists; split; [reflexivity|]; simpl; split; congruence.
Qed.

Lemma ios_generateResponse_resolves capable prompt (w : World) :
  exists r, fst (ios_generateResponse empty_session respond_to capable prompt w)
            = Resolved r /\ one_payload r.
Proof.
  unfold ios_generateResponse.
  destruct capable; run.
  - destruct (availability w); simpl; eauto with bridge.
    destruct (respond_to _ _) as [[text|description] s']; simpl;
      eauto with bridge.
  - eauto with bridge.
Qed.

Lemma ios_sendSessionMessage_resolves capable sessionId message (w : World) :
  exists r, fst (ios_sendSessionMessage respond_to capable sessionId message w)
            = Resolved r /\ one_payload r.
Proof.
  unfold ios_sendSessionMessage.
  destruct capable; run.
  - destruct (sessions w !! sessionId) as [h|]; simpl; eauto with bridge.
    destruct (respond_to _ _) as [[text|description] s']; simpl;
      eauto with bridge.
  - eauto with bridge.
Qed.

(** Whatever the native module does, [generateResponse] resolves. *)
Lemma generateResponse_resolves js (N : NativeModule) prompt (w : World) :
  exists r, fst (generateResponse js N prompt w) = Resolved r.
Proof.
  unfold generateResponse.
  destruct (isModuleAvailable js); simpl; [|unfold ret; eauto].
  destruct (js_not prompt || js_not_string prompt); [unfold ret; eauto|].
  destruct prompt; try (unfold ret; simpl; eauto).
  unfold_monad.
  destruct (nm_generateResponse N s _) as [[r|e] w']; simpl; eauto.
Qed.

(** *** Claims *)


(** C2. Every status [getAvailabilityStatus] returns has
    [isAvailable] true exactly when [status] is [available]: on iOS
    behind or before the guard and for every availability the model
    reports, on Android, on a bridge that rejects the call, and when
    the module did not load; and so have the statuses the two native
    implementations return themselves. *)
Theorem getAvailabilityStatus_flag_iff_available :
  (forall js (p : Platform) (w : World),
      exists s, fst (getAvailabilityStatus js (native p) w) = Resolved s /\
                (isAvailable_flag s = true <-> status s = available)) /\
  (forall capable (w : World),
      exists s, fst (ios_getAvailabilityStatus capable w) = Resolved s /\
                (isAvailable_flag s = true <-> status s = available)) /\
  (forall w : World,
      exists s, fst (android_getAvailabilityStatus w) = Resolved s /\
                (isAvailable_flag s = true <-> status s = available)).
Proof.
  split; [|split].
  - intros js p w. unfold getAvailabilityStatus.
    destruct (isModuleAvailable js); simpl.
    + unfold_monad. destruct p as [capable| |e]; simpl.
      * destruct (ios_getAvailabilityStatus_resolves capable
                    (log (Invoke "getAvailabilityStatus") w)) as (s & -> & Hs).
        exists s. split; [reflexivity|exact Hs].
      * eexists; split; [reflexivity|]. simpl; split; congruence.
      * eexists; split; [reflexivity|]. simpl; split; congruence.
    + unfold ret. eexists; split; [reflexivity|]. simpl; split; congruence.
  - intros capable w.
    destruct (ios_getAvailabilityStatus_resolves capable w) as (s & -> & Hs).
    exists s. split; [reflexivity|exact Hs].
  - intros w. eexists; split; [reflexivity|]. simpl; split; congruence.
Qed.

(** C3 (amended). For the empty string and for [null],
    [generateResponse] resolves to a failure and leaves the world as
    it was: nothing is called, on the bridge or in the runtime. The
    error is 'Prompt must be a non-empty string' when the native
    module is available; when it is not, the first guard answers and
    the error is 'Apple Intelligence is not available on this
    device'. *)
Theorem generateResponse_invalid_prompt_is_local
    js (N : NativeModule) (prompt : JsValue) (w : World) :
  prompt = JsString EmptyString \/ prompt = JsNull ->
  generateResponse js N prompt w =
    (Resolved (failed (if isModuleAvailable js
                       then "Prompt must be a non-empty string"
                       else "Apple Intelligence is not available on this device")),
     w).
Proof.
  intros [-> | ->]; unfold generateResponse;
    destruct (isModuleAvailable js); reflexivity.
Qed.

(** C4 (amended). For a session identifier that is not in the
    registry, [sendSessionMessage] resolves to a failure result and
    changes nothing. Behind the availability guard the error is
    'Session not found. Create a new session first.'; where the guard
    fails the registry is not consulted and the error is 'Foundation
    Models not available'. It does not throw. *)
Theorem sendSessionMessage_unknown_session
    (capable : bool) (sessionId message : string) (w : World) :
  sessions w !! sessionId = None ->
  ios_sendSessionMessage respond_to capable sessionId message w =
    (Resolved (failed (if capable
                       then "Session not found. Create a new session first."
                       else "Foundation Models not available")),
     w).
Proof.
  intros Hnone. unfold ios_sendSessionMessage.
  destruct capable; run; [|reflexivity].
  by rewrite Hnone.
Qed.

(** C7. When the model service cannot be used (the module did not
    load, the guard of the native side fails, the model is not ready,
    the platform is the stub, or the bridge rejects the call),
    [createSession] rejects and the registry is untouched, while on
    the same state [generateResponse] resolves to a result with
    [success] false, [isAvailable] resolves to [false], and the native
    [sendSessionMessage] of the iOS and Android modules resolves. *)
Theorem createSession_rejects_when_unavailable
    js (p : Platform) (w : World) (options : option SessionOptions) :
  service_unavailable js p w = true ->
  (exists e w', createSession js (native p) options w = (Rejected e, w') /\
                sessions w' = sessions w) /\
  (forall prompt,
      exists r, fst (generateResponse js (native p) prompt w) = Resolved r /\
                success r = false) /\
  fst (isAvailable js (native p) w) = Resolved false /\
  (forall sessionId message,
      match p with
      | Rejecting _ => True
      | _ => exists r, fst (nm_sendSessionMessage (native p) sessionId message w)
                       = Resolved r
      end).
Proof.
  intros Hun. unfold service_unavailable in Hun.
  repeat split.
  - unfold createSession.
    destruct (isModuleAvailable js); simpl in *; [|unfold throw; eauto].
    destruct p as [[|]| |e]; simpl in *; unfold ios_createSession; run; eauto.
    destruct (availability w); simpl; try discriminate; eauto.
  - intros prompt. unfold generateResponse.
    destruct (isModuleAvailable js); simpl in *; [|unfold ret; eauto].
    destruct (js_not prompt || js_not_string prompt); [unfold ret; eauto|].
    destruct prompt; try (unfold ret; eauto).
    destruct p as [[|]| |e]; simpl in *; unfold ios_generateResponse; run; eauto.
    destruct (availability w); simpl; try discriminate; eauto.
  - unfold isAvailable.
    destruct (isModuleAvailable js); simpl in *; [|reflexivity].
    destruct p as [[|]| |e]; simpl in *; unfold ios_isAvailable; run; eauto.
    destruct (availability w); simpl; try discriminate; eauto.
  - intros sessionId message. destruct p as [capable| |e]; simpl; [| |exact I].
    + destruct (ios_sendSessionMessage_resolves capable sessionId message w)
        as (r & Hr & _). eauto.
    + eexists; reflexivity.
Qed.

(** C8. Every result of [generateResponse] and of
    [sendSessionMessage] has exactly one payload field: [response] is
    there exactly when [success] is true, [error] exactly when it is
    false, never both. This holds for the API function on every
    platform and bridge state, for the native functions of both
    modules, and for [sendMessage] of a session object. *)
Theorem generation_results_one_payload :
  (forall js (p : Platform) prompt (w : World),
      exists r, fst (generateResponse js (native p) prompt w) = Resolved r /\
                one_payload r) /\
  (forall capable prompt (w : World),
      exists r, fst (ios_generateResponse empty_session respond_to capable prompt w)
                = Resolved r /\ one_payload r) /\
  (forall capable sessionId message (w : World),
      exists r, fst (ios_sendSessionMessage respond_to capable sessionId message w)
                = Resolved r /\ one_payload r) /\
  (forall capable s message (w : World),
      exists r, fst (sendMessage (native (Ios capable)) s message w) = Resolved r /\
                one_payload r) /\
  (forall prompt sessionId message s (w : World),
      exists r1 r2 r3,
        fst (android_generateResponse prompt w) = Resolved r1 /\
        fst (android_sendSessionMessage sessionId message w) = Resolved r2 /\
        fst (sendMessage (native Android) s message w) = Resolved r3 /\
        one_payload r1 /\ one_payload r2 /\ one_payload r3).
Proof.
  repeat apply conj.
  - intros js p prompt w. unfold generateResponse.
    destruct (isModuleAvailable js); simpl; [|unfold ret; eauto with bridge].
    destruct (js_not prompt || js_not_string prompt);
      [unfold ret; eauto with bridge|].
    destruct prompt as [| | b | text |]; try (unfold ret; eauto with bridge).
    unfold_monad. destruct p as [capable| |e]; simpl.
    + destruct (ios_generateResponse_resolves capable text
                  (log (Invoke "generateResponse") w)) as (r & Hr & Hp).
      destruct (ios_generateResponse _ _ _ _ _) as [[r'|e'] w']; simpl in *;
        [|discriminate].
      exists r'. split; [reflexivity|congruence].
    + eauto with bridge.
    + eauto with bridge.
  - apply ios_generateResponse_resolves.
  - apply ios_sendSessionMessage_resolves.
  - intros capable s message w. unfold sendMessage, invoke; simpl.
    apply ios_sendSessionMessage_resolves.
  - intros. do 3 eexists. repeat split; eauto with bridge; payload_cases.
Qed.

(** *** The registry *)

Lemma consistent_start (capable : bool) (w : World) :
  sessions w = ∅ -> consistent capable w.
Proof.
  intros He. split; [done|].
  intros sessionId h. by rewrite He, lookup_empty.
Qed.

Lemma consistent_new_handle capable (w : World) sessionId objs tr n :
  capable = true ->
  consistent capable w ->
  consistent capable
    ({| availability := availability w; objects := objs;
        allocated := S (allocated w);
        sessions := <[sessionId := allocated w]> (sessions w);
        uuids_drawn := n; trace := tr |} : World).
Proof.
  intros -> [_ Hh]. split; [discriminate|]. simpl.
  intros sid h. rewrite lookup_insert. case_decide.
  - intros [= <-]. lia.
  - intros Hs. apply Hh in Hs. lia.
Qed.

Lemma consistent_same_registry capable (w w' : World) :
  sessions w' = sessions w ->
  allocated w <= allocated w' ->
  consistent capable w -> consistent capable w'.
Proof.
  intros Hs Ha [Hg Hh]. split; rewrite Hs.
  - exact Hg.
  - intros sid h Hl. apply Hh in Hl. lia.
Qed.

(** A rejected [createSession] has not written the registry. *)
Lemma ios_createSession_rejected capable sp (w w' : World) e :
  ios_createSession empty_session respond_to uuidString capable sp w = (Rejected e, w') ->
  sessions w' = sessions w /\ allocated w <= allocated w'.
Proof.
  unfold ios_createSession. destruct capable; run.
  - destruct (availability w); simpl; try (intros [= _ <-]; done).
    destruct (seeding_prompt sp) as [p|]; simpl; [|discriminate].
    destruct (respond_to _ _) as [[text|description] s']; simpl; [discriminate|].
    intros [= _ <-]. simpl. split; [done|lia].
  - intros [= _ <-]. done.
Qed.

(** Every native function of the iOS module keeps a world consistent. *)
Lemma consistent_preserved capable (w : World) :
  consistent capable w ->
  (forall sp, consistent capable
                (snd (ios_createSession empty_session respond_to uuidString capable sp w))) /\
  (forall sessionId message,
      consistent capable (snd (ios_sendSessionMessage respond_to capable sessionId message w))) /\
  (forall prompt,
      consistent capable (snd (ios_generateResponse empty_session respond_to capable prompt w))) /\
  (forall sessionId,
      consistent capable (snd (ios_resetSession empty_session capable sessionId w))) /\
  (forall sessionId,
      consistent capable (snd (ios_endSession capable sessionId w))).
Proof.
  intros Hc. repeat apply conj.
  - intros sp.
    destruct (ios_createSession _ _ _ _ _ _) as [[sid|e] w'] eqn:Hrun; simpl.
    + revert Hrun. unfold ios_createSession. destruct capable; run; [|discriminate].
      destruct (availability w); simpl; try discriminate.
      destruct (seeding_prompt sp) as [p|]; simpl.
      * destruct (respond_to _ _) as [[text|description] s']; simpl; [|discriminate].
        intros [= _ <-]. by apply (consistent_new_handle true w).
      * intros [= _ <-]. by apply (consistent_new_handle true w).
    + apply ios_createSession_rejected in Hrun as [Hs Ha].
      by apply (consistent_same_registry capable w).
  - intros sessionId message. unfold ios_sendSessionMessage.
    destruct capable; run; [|done].
    destruct (sessions w !! sessionId) as [h|]; simpl; [|done].
    destruct (respond_to _ _) as [[text|description] s']; simpl;
      by apply (consistent_same_registry true w).
  - intros prompt. unfold ios_generateResponse.
    destruct capable; run; [|done].
    destruct (availability w); simpl; try done.
    destruct (respond_to _ _) as [[text|description] s']; simpl;
      apply (consistent_same_registry true w); simpl; auto.
  - intros sessionId. unfold ios_resetSession.
    destruct capable; run; [|done].
    destruct (sessions w !! sessionId) as [h|]; simpl; [|done].
    by apply (consistent_new_handle true w).
  - intros sessionId. unfold ios_endSession.
    destruct capable; run; [|done].
    destruct Hc as [_ Hh]. split; [discriminate|]. simpl.
    intros sid h Hl. apply lookup_delete_Some in Hl as [_ Hl]. eauto.
Qed.

Lemma reachable_consistent capable (w : World) :
  reachable empty_session respond_to uuidString capable w -> consistent capable w.
Proof.
  induction 1 as [w He | w c _ IH].
  - by apply consistent_start.
  - apply consistent_preserved in IH as (Hcreate & Hsend & Hgen & Hreset & Hend).
    destruct c; simpl; auto.
Qed.

(** C5. In a consistent world, as every reachable one is,
    [resetSession] resolves and leaves the
    set of registered identifiers as it was. A registered identifier
    then maps to a handle that was just made (no identifier held it
    before, its state is that of a new session) and every other entry
    and every other session object is as before; for an identifier that
    is not registered the world is unchanged. The Android stub changes
    nothing either. *)
Theorem resetSession_keeps_identifiers
    (capable : bool) (sessionId : string) (w : World) :
  consistent capable w ->
  (exists w',
      ios_resetSession empty_session capable sessionId w = (Resolved tt, w') /\
      (dom (sessions w') : gset string) = dom (sessions w) /\
      match sessions w !! sessionId with
      | Some _ =>
          sessions w' = <[sessionId := allocated w]> (sessions w) /\
          objects w' (allocated w) = empty_session /\
          (forall other h, sessions w !! other = Some h -> h <> allocated w) /\
          (forall h, h <> allocated w -> objects w' h = objects w h)
      | None => w' = w
      end) /\
  android_resetSession sessionId w = (Resolved tt, w).
Proof.
  intros [Hg Hh]. split; [|reflexivity].
  unfold ios_resetSession. destruct capable; run.
  - destruct (sessions w !! sessionId) as [old|] eqn:Hl; simpl.
    + eexists; split; [reflexivity|]. simpl. unfold update. repeat split.
      * apply dom_insert_lookup_L. by rewrite Hl.
      * by rewrite Nat.eqb_refl.
      * intros other h Ho. apply Hh in Ho. lia.
      * intros h Hne. apply Nat.eqb_neq in Hne. by rewrite Hne.
    + by exists w.
  - exists w. split; [reflexivity|]. split; [done|].
    rewrite (Hg eq_refl), lookup_empty. done.
Qed.

(** C6 (amended). The Android stub answers six operations with the
    fixed unsupported-platform answer in the shape of each: [false], an
    [unsupported] status, a failure result for the two generation
    calls, a thrown error for [createSession], nothing for
    [resetSession]; none of them touches the world. It has no
    [endSession]. *)
Theorem android_stub_answers (w : World) :
  nm_isAvailable android_module w = (Resolved false, w) /\
  nm_getAvailabilityStatus android_module w =
    (Resolved {| status := unsupported; isAvailable_flag := false; reason := None;
                 message := "Apple Intelligence is only available on iOS devices" |}, w) /\
  (forall prompt,
      nm_generateResponse android_module prompt w =
        (Resolved (failed "Apple Intelligence is only available on iOS devices"), w)) /\
  (forall sp,
      nm_createSession android_module sp w =
        (Rejected (ErrorObj "Apple Intelligence is only available on iOS devices"), w)) /\
  (forall sessionId message,
      nm_sendSessionMessage android_module sessionId message w =
        (Resolved (failed "Apple Intelligence is only available on iOS devices"), w)) /\
  (forall sessionId, nm_resetSession android_module sessionId w = (Resolved tt, w)) /\
  nm_endSession (@android_module SessionState) = None /\
  (forall op, defines (@android_module SessionState) op = true <-> op <> OpEndSession).
Proof.
  repeat apply conj; try reflexivity; intros op; destruct op; simpl; split;
    congruence.
Qed.

(** [seeding_prompt] keeps exactly the non-empty prompts. *)
Lemma seeding_prompt_Some (sp : option string) (p : string) :
  seeding_prompt sp = Some p <-> sp = Some p /\ p <> EmptyString.
Proof.
  unfold seeding_prompt. destruct sp as [q|].
  - destruct (decide (q = EmptyString)) as [Hq|Hq]; split.
    + discriminate.
    + intros [[= ->] Hp]. contradiction.
    + intros [= ->]. by split.
    + by intros [-> _].
  - split; [discriminate | intros [? _]; discriminate].
Qed.

Lemma seeding_prompt_None (sp : option string) :
  seeding_prompt sp = None <-> sp = None \/ sp = Some EmptyString.
Proof.
  unfold seeding_prompt. destruct sp as [q|].
  - destruct (decide (q = EmptyString)) as [Hq|Hq]; split.
    + intros _. right. by rewrite Hq.
    + done.
    + discriminate.
    + intros [? | [= ->]]; [discriminate | contradiction].
  - split; [by left | done].
Qed.

(** C9. On an available platform [createSession] draws the next
    identifier of the generator and makes a new session object. With a
    non-empty system prompt the one thing it then does is a turn on
    that object, with the prompt behind the prefix [System: ]: when the
    turn succeeds the object, in the state the turn left it in, is
    registered under the identifier and the identifier is the result of
    the call. With no system prompt or an empty one no turn is made:
    the new object is registered as it is. *)
Theorem createSession_seeds_system_prompt (sp : option string) (w : World) :
  availability w = ModelAvailable ->
  let sessionId := uuidString (uuids_drawn w) in
  let session := allocated w in
  (forall p text s',
      sp = Some p -> p <> EmptyString ->
      respond_to empty_session ("System: " ++ p) = (Content text, s') ->
      exists w',
        ios_createSession empty_session respond_to uuidString true sp w
          = (Resolved sessionId, w') /\
        trace w' = (trace w ++ [NewSession session; Respond session ("System: " ++ p)])%list /\
        sessions w' = <[sessionId := session]> (sessions w) /\
        objects w' session = s' /\
        uuids_drawn w' = S (uuids_drawn w)) /\
  (sp = None \/ sp = Some EmptyString ->
   exists w',
     ios_createSession empty_session respond_to uuidString true sp w
       = (Resolved sessionId, w') /\
     trace w' = (trace w ++ [NewSession session])%list /\
     sessions w' = <[sessionId := session]> (sessions w) /\
     objects w' session = empty_session /\
     uuids_drawn w' = S (uuids_drawn w)).
Proof.
  intros Ha sessionId session. split.
  - intros p text s' Hsp Hp Hr.
    assert (seeding_prompt sp = Some p) as Hseed by (by apply seeding_prompt_Some).
    unfold ios_createSession. run. rewrite Ha; simpl. rewrite Hseed; simpl.
    unfold update at 1. rewrite Nat.eqb_refl, Hr. simpl.
    eexists; split; [reflexivity|]. simpl. unfold update.
    rewrite Nat.eqb_refl, <- app_assoc. done.
  - intros Hsp. apply seeding_prompt_None in Hsp.
    unfold ios_createSession. run. rewrite Ha; simpl. rewrite Hsp; simpl.
    eexists; split; [reflexivity|]. simpl. unfold update.
    by rewrite Nat.eqb_refl.
Qed.

(** C10. When the seeding turn throws, [createSession] rejects with
    that error and the registry is the one from before the call: the
    entry is only written after the turn. The API function then rejects
    too, and likewise leaves the registry alone. *)
Theorem createSession_failed_seed_registers_nothing
    js (p description : string) (s' : SessionState) (w : World) :
  availability w = ModelAvailable ->
  p <> EmptyString ->
  respond_to empty_session ("System: " ++ p) = (Failure description, s') ->
  (exists w',
      ios_createSession empty_session respond_to uuidString true (Some p) w
        = (Rejected (ErrorObj description), w') /\
      sessions w' = sessions w) /\
  (isModuleAvailable js = true ->
   exists w',
     createSession js (native (Ios true)) (Some {| systemPrompt := Some p |}) w
       = (Rejected (ErrorObj ("Failed to create session: " ++ description)), w') /\
     sessions w' = sessions w).
Proof.
  intros Ha Hp Hr.
  assert (seeding_prompt (Some p) = Some p) as Hseed by (by apply seeding_prompt_Some).
  split.
  - unfold ios_createSession. run. rewrite Ha; simpl.
    simpl in Hseed. rewrite Hseed; simpl.
    unfold update at 1. rewrite Nat.eqb_refl, Hr. simpl. eauto.
  - intros Hjs. unfold createSession. rewrite Hjs; simpl.
    unfold ios_createSession. run. rewrite Ha; simpl.
    simpl in Hseed. rewrite Hseed; simpl.
    unfold update at 1. rewrite Nat.eqb_refl, Hr. simpl. eauto.
Qed.

End Properties.

(** C3, as stated, fails where the native module did not load: the
    first guard of [generateResponse] answers before the prompt is
    looked at. *)
Lemma generateResponse_empty_prompt_module_absent :
  let r := fst (generateResponse (load BindingNullish)
                  (rejecting_module (ErrorObj "Cannot find native module"))
                  (JsString EmptyString) (start ModelAvailable)) in
  r = Resolved (failed "Apple Intelligence is not available on this device") /\
  r <> Resolved (failed "Prompt must be a non-empty string").
Proof. split; [reflexivity | discriminate]. Qed.

Lemma generateResponse_invalid_prompt_is_local_witness :
  generateResponse (load (BindingObject true)) (echo_ios true) JsNull
                   (start ModelAvailable)
  = (Resolved (failed "Prompt must be a non-empty string"), start ModelAvailable).
Proof.
  apply (generateResponse_invalid_prompt_is_local
           (load (BindingObject true)) (echo_ios true) JsNull (start ModelAvailable)).
  right; reflexivity.
Defined.

(** C4, as stated, fails where the availability guard of the Swift
    function fails: the answer to an identifier that was never created
    is then 'Foundation Models not available'. *)
Lemma sendSessionMessage_unknown_session_not_capable :
  let r := fst (ios_sendSessionMessage echo_respond false "7F3A" "hello"
                  (start ModelAvailable)) in
  sessions (start ModelAvailable) !! "7F3A" = None /\
  r = Resolved (failed "Foundation Models not available") /\
  r <> Resolved (failed "Session not found. Create a new session first.").
Proof. intro r. split; [reflexivity | split; [reflexivity | discriminate]]. Qed.

Lemma sendSessionMessage_unknown_session_witness :
  ios_sendSessionMessage echo_respond true "7F3A" "hello" (start ModelAvailable)
  = (Resolved (failed "Session not found. Create a new session first."),
     start ModelAvailable).
Proof.
  apply (sendSessionMessage_unknown_session echo_respond true "7F3A" "hello"
           (start ModelAvailable)).
  reflexivity.
Defined.

Lemma createSession_rejects_when_unavailable_witness :
  service_unavailable (load (BindingObject true)) (Ios true)
                      (start (ModelUnavailable "modelNotReady")) = true /\
  exists e w',
    createSession (load (BindingObject true)) (echo_ios true) None
                  (start (ModelUnavailable "modelNotReady")) = (Rejected e, w') /\
    sessions w' = ∅.
Proof.
  split; [reflexivity|].
  apply (createSession_rejects_when_unavailable [] echo_respond echo_uuid
           (load (BindingObject true)) (Ios true)
           (start (ModelUnavailable "modelNotReady")) None).
  reflexivity.
Defined.

Lemma resetSession_keeps_identifiers_witness :
  exists w',
    ios_resetSession [] true "7F3A" one_session = (Resolved tt, w') /\
    (dom (sessions w') : gset string) = dom (sessions one_session).
Proof.
  destruct (resetSession_keeps_identifiers [] true "7F3A" one_session)
    as [(w' & Hrun & Hdom & _) _].
  - apply (consistent_preserved [] echo_respond echo_uuid true (start ModelAvailable)).
    by apply consistent_start.
  - exists w'. by split.
Defined.

(** C6, as stated, fails on [endSession]: the Kotlin module has no
    function of that name, while the Swift module has one. *)
Lemma android_stub_omits_endSession :
  ~ (forall op, defines (@android_module (list string)) op = true) /\
  (forall op, defines (echo_ios true) op = true).
Proof.
  split.
  - intros Hall. specialize (Hall OpEndSession). discriminate.
  - by intros [].
Qed.

Lemma createSession_seeds_system_prompt_witness :
  exists w',
    ios_createSession [] echo_respond echo_uuid true (Some "Be brief")
                      (start ModelAvailable) = (Resolved "7F3A", w') /\
    trace w' = [NewSession 0; Respond 0 "System: Be brief"] /\
    sessions w' = {[ "7F3A" := 0 ]} /\
    objects w' 0 = ["System: Be brief"].
Proof.
  destruct (createSession_seeds_system_prompt [] echo_respond echo_uuid
              (Some "Be brief") (start ModelAvailable) eq_refl) as [Hseed _].
  destruct (Hseed "Be brief" "echo: System: Be brief" ["System: Be brief"])
    as (w' & Hrun & Htr & Hs & Ho & _);
    [reflexivity | discriminate | reflexivity |].
  exists w'. repeat split; assumption.
Defined.

Lemma createSession_failed_seed_registers_nothing_witness :
  exists w',
    ios_createSession [] echo_respond echo_uuid true (Some "boom")
                      (start ModelAvailable) = (Rejected (ErrorObj "boom"), w') /\
    sessions w' = ∅.
Proof.
  destruct (createSession_failed_seed_registers_nothing [] echo_respond echo_uuid
              (load (BindingObject true)) "boom" "boom" ["System: boom"]
              (start ModelAvailable) eq_refl) as [Hnative _];
    [discriminate | reflexivity |].
  exact Hnative.
Defined.

(** ** Further properties of the three layers *)

Section Coverage.

Context {SessionState : Type}.
Variable empty_session : SessionState.
Variable respond_to : SessionState -> string -> Reply * SessionState.
Variable uuidString : nat -> string.

Abbreviation World' := (@World SessionState).
Abbreviation NativeModule' := (@NativeModule SessionState).
Abbreviation native' := (native empty_session respond_to uuidString).
Abbreviation after' := (after empty_session respond_to uuidString).
Abbreviation reachable' := (reachable empty_session respond_to uuidString).

Lemma set_sessions_same (w : World') : set_sessions (sessions w) w = w.
Proof. by destruct w. Qed.

Lemma turns_app (tr1 tr2 : list Event) : turns (tr1 ++ tr2) = turns tr1 + turns tr2.
Proof.
  induction tr1 as [|ev tr1 IH]; simpl; [done|].
  destruct ev; simpl; by rewrite IH.
Qed.

(** *** [endSession] (Swift) *)

(** X1. Behind the guard [endSession] resolves and removes the entry of
    its identifier and nothing else: the other entries, the session
    objects and the trace are as before (no turn, no new object). Where
    the guard fails the world is unchanged. *)
Theorem endSession_removes_only_its_entry
    (capable : bool) (sessionId : string) (w : World') :
  exists w',
    ios_endSession capable sessionId w = (Resolved tt, w') /\
    (if capable
     then sessions w' !! sessionId = None /\
          (forall other, other <> sessionId -> sessions w' !! other = sessions w !! other) /\
          (dom (sessions w') : gset string) = dom (sessions w) ∖ {[ sessionId ]}
     else w' = w) /\
    objects w' = objects w /\ allocated w' = allocated w /\ trace w' = trace w.
Proof.
  unfold ios_endSession. destruct capable; run.
  - eexists; split; [reflexivity|]. simpl. repeat split.
    + apply lookup_delete_eq.
    + intros other Hne. by apply lookup_delete_ne.
    + apply dom_delete_L.
  - by exists w.
Qed.

(** X2. Ending an identifier that is not registered changes nothing,
    so ending a session twice is the same as ending it once. *)
Theorem endSession_absent_is_noop
    (capable : bool) (sessionId : string) (w : World') :
  (sessions w !! sessionId = None ->
   ios_endSession capable sessionId w = (Resolved tt, w)) /\
  ios_endSession capable sessionId (snd (ios_endSession capable sessionId w))
  = (Resolved tt, snd (ios_endSession capable sessionId w)).
Proof.
  destruct capable; [|by split].
  assert (forall w0 : World', sessions w0 !! sessionId = None ->
            ios_endSession true sessionId w0 = (Resolved tt, w0)) as Hnoop.
  { intros w0 Hnone. unfold ios_endSession. run.
    by rewrite (delete_id _ _ Hnone), set_sessions_same. }
  split; [apply Hnoop|].
  apply Hnoop. unfold ios_endSession. run. apply lookup_delete_eq.
Qed.

(** *** [sendSessionMessage], [resetSession], [createSession] (Swift) *)

(** What [createSession] leaves behind when it resolves. *)
Lemma ios_createSession_resolved capable sp sessionId (w w1 : World') :
  ios_createSession empty_session respond_to uuidString capable sp w
    = (Resolved sessionId, w1) ->
  capable = true /\
  availability w = ModelAvailable /\
  sessionId = uuidString (uuids_drawn w) /\
  sessions w1 = <[sessionId := allocated w]> (sessions w) /\
  allocated w1 = S (allocated w) /\
  objects w1 (allocated w)
  = match seeding_prompt sp with
    | Some p => snd (respond_to empty_session ("System: " ++ p))
    | None => empty_session
    end /\
  (forall h, h <> allocated w -> objects w1 h = objects w h).
Proof.
  unfold ios_createSession. destruct capable; run; [|discriminate].
  destruct (availability w); simpl; try discriminate.
  destruct (seeding_prompt sp) as [p|]; simpl.
  - unfold update at 1. rewrite Nat.eqb_refl.
    destruct (respond_to empty_session _) as [[text|description] s']; simpl;
      [|discriminate].
    intros [= <- <-]. simpl. unfold update. rewrite Nat.eqb_refl.
    repeat split; try done.
    intros h Hne. apply Nat.eqb_neq in Hne. by rewrite Hne.
  - intros [= <- <-]. simpl. unfold update. rewrite Nat.eqb_refl.
    repeat split; try done.
    intros h Hne. apply Nat.eqb_neq in Hne. by rewrite Hne.
Qed.

(** X3. For a registered identifier [sendSessionMessage] makes one
    turn on the session object the registry holds for it, whatever the
    model reports about its availability: the result wraps the reply
    of that turn, the object moves to the state the turn left, every
    other object and the registry are as before. *)
Theorem sendSessionMessage_forwards_to_handle
    (sessionId message : string) (h : nat) (w : World') :
  sessions w !! sessionId = Some h ->
  exists w',
    ios_sendSessionMessage respond_to true sessionId message w
    = (Resolved (result_of_reply (fst (respond_to (objects w h) message))), w') /\
    objects w' h = snd (respond_to (objects w h) message) /\
    (forall h', h' <> h -> objects w' h' = objects w h') /\
    sessions w' = sessions w /\ allocated w' = allocated w /\
    trace w' = (trace w ++ [Respond h message])%list.
Proof.
  intros Hl. unfold ios_sendSessionMessage. run. rewrite Hl. simpl.
  destruct (respond_to (objects w h) message) as [[text|description] s'];
    simpl; (eexists; split; [reflexivity|]); simpl; unfold update;
    rewrite Nat.eqb_refl; repeat split; try done;
    intros h' Hne; apply Nat.eqb_neq in Hne; by rewrite Hne.
Qed.

(** X4. A session keeps its context from one message to the next: the
    reply to a second message is the one the runtime gives in the
    state the first turn left. *)
Theorem sendSessionMessage_context_accumulates
    (sessionId m1 m2 : string) (h : nat) (w : World') :
  sessions w !! sessionId = Some h ->
  fst (ios_sendSessionMessage respond_to true sessionId m2
         (snd (ios_sendSessionMessage respond_to true sessionId m1 w)))
  = Resolved (result_of_reply
                (fst (respond_to (snd (respond_to (objects w h) m1)) m2))).
Proof.
  intros Hl. unfold ios_sendSessionMessage. run. rewrite Hl. simpl.
  destruct (respond_to (objects w h) m1) as [[t1|d1] s1]; simpl;
    rewrite Hl; simpl; unfold update at 1; rewrite Nat.eqb_refl;
    by destruct (respond_to s1 m2) as [[t2|d2] s2].
Qed.

(** X5. After [resetSession] the history of a session is gone: the
    reply to the next message is the one a new session gives. *)
Theorem resetSession_discards_history
    (sessionId message : string) (h : nat) (w : World') :
  sessions w !! sessionId = Some h ->
  fst (ios_sendSessionMessage respond_to true sessionId message
         (snd (ios_resetSession empty_session true sessionId w)))
  = Resolved (result_of_reply (fst (respond_to empty_session message))).
Proof.
  intros Hl. unfold ios_sendSessionMessage, ios_resetSession. run.
  rewrite Hl. simpl. rewrite lookup_insert_eq. simpl.
  unfold update at 1. rewrite Nat.eqb_refl.
  by destruct (respond_to empty_session message) as [[text|description] s'].
Qed.

(** X6. The native [generateResponse] is stateless. When the model is
    available it makes a new session object, makes one turn on it and
    wraps the reply, so the answer never depends on earlier calls; the
    object is not registered, and the registry and the objects that
    existed are as before. When the model is not available it answers
    with a failure and changes nothing. *)
Theorem ios_generateResponse_is_stateless (prompt : string) (w : World') :
  match availability w with
  | ModelAvailable =>
      exists w',
        ios_generateResponse empty_session respond_to true prompt w
        = (Resolved (result_of_reply (fst (respond_to empty_session prompt))), w') /\
        sessions w' = sessions w /\
        (forall h, h <> allocated w -> objects w' h = objects w h) /\
        trace w' = (trace w ++ [NewSession (allocated w);
                                Respond (allocated w) prompt])%list
  | _ =>
      ios_generateResponse empty_session respond_to true prompt w
      = (Resolved (failed "Apple Intelligence is not available on this device"), w)
  end.
Proof.
  unfold ios_generateResponse. run.
  destruct (availability w); simpl; try reflexivity.
  unfold update at 1. rewrite Nat.eqb_refl.
  destruct (respond_to empty_session prompt) as [[text|description] s'];
    simpl; (eexists; split; [reflexivity|]); simpl; unfold update;
    rewrite <- app_assoc; repeat split; try done;
    intros h Hne; apply Nat.eqb_neq in Hne; by rewrite Hne.
Qed.

(** X7. The identifier [createSession] returns is registered, and a
    message sent to it is answered in the state the seeding left: that
    of a new session when there was no system prompt or an empty one,
    the state after the [System: ] turn otherwise. *)
Theorem createSession_then_sendSessionMessage
    (capable : bool) (sp : option string) (sessionId : string) (w w1 : World') :
  ios_createSession empty_session respond_to uuidString capable sp w
    = (Resolved sessionId, w1) ->
  sessions w1 !! sessionId = Some (allocated w) /\
  forall message,
    fst (ios_sendSessionMessage respond_to capable sessionId message w1)
    = Resolved (result_of_reply
                  (fst (respond_to
                          match seeding_prompt sp with
                          | Some p => snd (respond_to empty_session ("System: " ++ p))
                          | None => empty_session
                          end message))).
Proof.
  intros Hrun.
  apply ios_createSession_resolved in Hrun
    as (-> & _ & _ & Hs & _ & Ho & _).
  assert (sessions w1 !! sessionId = Some (allocated w)) as Hl
    by (by rewrite Hs, lookup_insert_eq).
  split; [exact Hl|]. intros message.
  unfold ios_sendSessionMessage. run. rewrite Hl. simpl. rewrite Ho.
  by destruct (respond_to _ message) as [[text|description] s'].
Qed.

(** X8. [createSession] does not look whether the identifier it drew
    is taken. If it is, the set of registered identifiers stays as it
    was and the identifier now holds the new session object, not the
    one it held. *)
Theorem createSession_overwrites_taken_identifier
    (capable : bool) (sp : option string) (sessionId : string) (old : nat)
    (w w1 : World') :
  consistent capable w ->
  ios_createSession empty_session respond_to uuidString capable sp w
    = (Resolved sessionId, w1) ->
  sessions w !! sessionId = Some old ->
  (dom (sessions w1) : gset string) = dom (sessions w) /\
  sessions w1 !! sessionId = Some (allocated w) /\
  allocated w <> old.
Proof.
  intros [_ Hh] Hrun Hold.
  apply ios_createSession_resolved in Hrun as (_ & _ & _ & Hs & _).
  rewrite Hs. repeat split.
  - apply dom_insert_lookup_L. by rewrite Hold.
  - apply lookup_insert_eq.
  - apply Hh in Hold. lia.
Qed.

(** *** Runs: what every native call keeps *)

Ltac call_cases :=
  repeat match goal with
    | |- context [match availability ?w with _ => _ end] =>
        destruct (availability w) eqn:?; simpl
    | |- context [match seeding_prompt ?sp with _ => _ end] =>
        destruct (seeding_prompt sp); simpl
    | |- context [match sessions ?w !! ?i with _ => _ end] =>
        destruct (sessions w !! i) eqn:?; simpl
    | |- context [respond_to ?s ?p] =>
        destruct (respond_to s p) as [[?|?] ?] eqn:?; simpl
    end.

Ltac run_call c capable :=
  unfold after; destruct c; simpl;
  unfold ios_generateResponse, ios_createSession, ios_sendSessionMessage,
    ios_resetSession, ios_endSession;
  destruct capable; run; call_cases.

(** The registry after a call. *)
Lemma after_sessions capable (c : NativeCall) (w : World') :
  sessions (after' capable c w)
  = match c with
    | CallGenerateResponse _ | CallSendSessionMessage _ _ => sessions w
    | CallCreateSession sp =>
        match fst (ios_createSession empty_session respond_to uuidString capable sp w) with
        | Resolved sessionId => <[sessionId := allocated w]> (sessions w)
        | Rejected _ => sessions w
        end
    | CallResetSession sessionId =>
        match sessions w !! sessionId with
        | Some _ => if capable then <[sessionId := allocated w]> (sessions w)
                    else sessions w
        | None => sessions w
        end
    | CallEndSession sessionId =>
        if capable then delete sessionId (sessions w) else sessions w
    end.
Proof. run_call c capable; reflexivity. Qed.

Lemma injective_new_handle capable (w w' : World') sessionId :
  consistent capable w ->
  registry_injective w ->
  sessions w' = <[sessionId := allocated w]> (sessions w) ->
  registry_injective w'.
Proof.
  intros [_ Hh] Hinj Hs id1 id2 h. rewrite Hs, !lookup_insert.
  repeat case_decide; subst; try done.
  - intros [= <-] Hl. apply Hh in Hl. lia.
  - intros Hl [= <-]. apply Hh in Hl. lia.
  - apply Hinj.
Qed.

Lemma injective_after capable (c : NativeCall) (w : World') :
  consistent capable w ->
  registry_injective w ->
  registry_injective (after' capable c w).
Proof.
  intros Hc Hinj.
  pose proof (after_sessions capable c w) as Hs.
  destruct c as [prompt|sp|sid message|sid|sid].
  - intros id1 id2 h. rewrite Hs. apply Hinj.
  - destruct (fst (ios_createSession _ _ _ _ _ _)).
    + by eapply injective_new_handle.
    + intros id1 id2 h. rewrite Hs. apply Hinj.
  - intros id1 id2 h. rewrite Hs. apply Hinj.
  - destruct (sessions w !! sid); [destruct capable|].
    + by eapply injective_new_handle.
    + intros id1 id2 h. rewrite Hs. apply Hinj.
    + intros id1 id2 h. rewrite Hs. apply Hinj.
  - destruct capable.
    + intros id1 id2 h. rewrite Hs.
      intros [_ H1]%lookup_delete_Some [_ H2]%lookup_delete_Some. eauto.
    + intros id1 id2 h. rewrite Hs. apply Hinj.
Qed.

Lemma reachable_injective capable (w : World') :
  reachable' capable w -> registry_injective w.
Proof.
  induction 1 as [w He | w c Hr IH].
  - intros id1 id2 h. by rewrite He, lookup_empty.
  - apply injective_after; [|exact IH].
    by eapply reachable_consistent.
Qed.

(** X9. In every world a process can reach, no two identifiers hold
    the same session object, every registered session object has been
    made, and where the guard fails nothing is registered. *)
Theorem reachable_registry_invariant (capable : bool) (w : World') :
  reachable' capable w ->
  registry_injective w /\
  (forall sessionId h, sessions w !! sessionId = Some h -> h < allocated w) /\
  (capable = false -> sessions w = ∅).
Proof.
  intros Hr. split; [by eapply reachable_injective|].
  apply reachable_consistent in Hr as [Hg Hh]. by split.
Qed.

(** X10. Sessions do not share state: in a reachable world, a message
    sent to one session does not change what another session
    answers. *)
Theorem sessions_are_isolated
    (id1 id2 m1 m2 : string) (w : World') :
  reachable' true w ->
  id1 <> id2 ->
  is_Some (sessions w !! id2) ->
  fst (ios_sendSessionMessage respond_to true id2 m2
         (snd (ios_sendSessionMessage respond_to true id1 m1 w)))
  = fst (ios_sendSessionMessage respond_to true id2 m2 w).
Proof.
  intros Hr Hne [h2 H2]. apply reachable_injective in Hr.
  unfold ios_sendSessionMessage. run.
  destruct (sessions w !! id1) as [h1|] eqn:H1; simpl; [|done].
  assert (h2 <> h1) as Hh by (intros ->; apply Hne; by eapply Hr).
  apply Nat.eqb_neq in Hh.
  destruct (respond_to (objects w h1) m1) as [[t1|d1] s1]; simpl;
    rewrite H2; simpl; unfold update; rewrite Hh;
    by destruct (respond_to (objects w h2) m2) as [[t2|d2] s2].
Qed.


(** X12. Only [createSession] adds an identifier to the registry, and
    the one it adds is the one it drew; only [endSession] removes
    one, and the one it removes is its argument. *)
Theorem registry_changes_only_by_create_and_end
    (capable : bool) (c : NativeCall) (w : World') (sessionId : string) :
  (sessions w !! sessionId = None ->
   is_Some (sessions (after' capable c w) !! sessionId) ->
   exists sp, c = CallCreateSession sp /\ sessionId = uuidString (uuids_drawn w)) /\
  (is_Some (sessions w !! sessionId) ->
   sessions (after' capable c w) !! sessionId = None ->
   c = CallEndSession sessionId).
Proof.
  rewrite after_sessions.
  destruct c as [prompt|sp|sid message|sid|sid].
  - split; [intros -> [? ?] | intros [? ->] ?]; discriminate.
  - destruct (ios_createSession _ _ _ _ _ _) as [[newId|e] w1] eqn:Hrun; simpl.
    + apply ios_createSession_resolved in Hrun as (_ & _ & Hid & _).
      rewrite lookup_insert. case_decide; subst.
      * split; [eauto | intros _ ?; discriminate].
      * split; [intros -> [? ?] | intros [? ->] ?]; discriminate.
    + split; [intros -> [? ?] | intros [? ->] ?]; discriminate.
  - split; [intros -> [? ?] | intros [? ->] ?]; discriminate.
  - destruct (sessions w !! sid) eqn:Hsid; [destruct capable|].
    + rewrite lookup_insert. case_decide; subst.
      * split; [intros Hn; congruence | intros _ ?; discriminate].
      * split; [intros -> [? ?] | intros [? ->] ?]; discriminate.
    + split; [intros -> [? ?] | intros [? ->] ?]; discriminate.
    + split; [intros -> [? ?] | intros [? ->] ?]; discriminate.
  - destruct capable.
    + split.
      * intros Hn [h [_ Hl]%lookup_delete_Some]. congruence.
      * intros [h Hl] [->|Hn]%lookup_delete_None; [done | congruence].
    + split; [intros -> [? ?] | intros [? ->] ?]; discriminate.
Qed.

(** X13. A native call costs the runtime at most one turn, and
    [resetSession] and [endSession] cost none. *)
Theorem native_call_makes_at_most_one_turn
    (capable : bool) (c : NativeCall) (w : World') :
  turns (trace (after' capable c w)) <= S (turns (trace w)) /\
  match c with
  | CallResetSession _ | CallEndSession _ =>
      turns (trace (after' capable c w)) = turns (trace w)
  | _ => True
  end.
Proof.
  run_call c capable; rewrite ?turns_app; simpl; split; lia || exact I.
Qed.

(** *** [src/AppleIntelligence.ts] over the native modules *)

(** X14. [reason] is set exactly on the statuses that are
    [unavailable]: for every status the API function returns on every
    platform and bridge state, and for the ones the Swift function
    returns itself. *)
Theorem getAvailabilityStatus_reason_iff_unavailable :
  (forall js (p : Platform) (w : World'),
      exists s, fst (getAvailabilityStatus js (native' p) w) = Resolved s /\
                (is_Some (reason s) <-> status s = unavailable)) /\
  (forall capable (w : World'),
      exists s, fst (ios_getAvailabilityStatus capable w) = Resolved s /\
                (is_Some (reason s) <-> status s = unavailable)).
Proof.
  assert (forall capable (w : World'),
             exists s, ios_getAvailabilityStatus capable w = (Resolved s, w) /\
                       (is_Some (reason s) <-> status s = unavailable)) as Hios.
  { intros capable w. unfold ios_getAvailabilityStatus. destruct capable; run.
    - destruct (availability w); eexists; (split; [reflexivity|]); simpl;
        split; first [by intros [? ?] | discriminate | eauto].
    - eexists; split; [reflexivity|]; simpl.
      split; [by intros [? ?] | discriminate]. }
  split.
  - intros js p w. unfold getAvailabilityStatus.
    destruct (isModuleAvailable js); simpl.
    + unfold_monad. destruct p as [capable| |e]; simpl.
      * destruct (Hios capable (log (Invoke "getAvailabilityStatus") w))
          as (s & -> & Hs). eauto.
      * eexists; split; [reflexivity|]; simpl.
        split; [by intros [? ?] | discriminate].
      * eexists; split; [reflexivity|]; simpl.
        split; [by intros [? ?] | discriminate].
    + eexists; split; [reflexivity|]; simpl.
      split; [by intros [? ?] | discriminate].
  - intros capable w. destruct (Hios capable w) as (s & -> & Hs). eauto.
Qed.

(** X15. The two availability functions of the API agree: on the
    same world, [isAvailable()] resolves to the [isAvailable] field of
    what [getAvailabilityStatus()] resolves to, on every platform and
    bridge state. *)
Theorem isAvailable_agrees_with_status js (p : Platform) (w : World') :
  exists s,
    fst (getAvailabilityStatus js (native' p) w) = Resolved s /\
    fst (isAvailable js (native' p) w) = Resolved (isAvailable_flag s).
Proof.
  unfold getAvailabilityStatus, isAvailable.
  destruct (isModuleAvailable js); simpl; [|by eexists].
  unfold_monad. destruct p as [[|]| |e]; simpl;
    unfold ios_getAvailabilityStatus, ios_isAvailable; run;
    try (by eexists).
  destruct (availability w); by eexists.
Qed.

(** X16. When the native module did not load, no function of the API
    calls it: each one settles at once and the world is unchanged,
    whatever the module would do. *)
Theorem api_is_local_when_module_not_loaded
    js (N : NativeModule') (w : World') :
  isModuleAvailable js = false ->
  isAvailable js N w = (Resolved false, w) /\
  (exists s, getAvailabilityStatus js N w = (Resolved s, w) /\
             status s = unsupported /\ isAvailable_flag s = false) /\
  (forall prompt,
      generateResponse js N prompt w
      = (Resolved (failed "Apple Intelligence is not available on this device"), w)) /\
  (forall options,
      createSession js N options w
      = (Rejected (ErrorObj "Apple Intelligence is not available on this device"), w)).
Proof.
  intros Hjs.
  unfold isAvailable, getAvailabilityStatus, generateResponse, createSession.
  rewrite Hjs. simpl. repeat split. by eexists.
Qed.

(** X17. [getAvailabilityStatus] never rejects, whatever the native
    module does: a rejected native call becomes the status [unknown]
    with the message of the error behind 'Error checking
    availability: ', and a resolved one is handed on as it is. *)
Theorem getAvailabilityStatus_never_rejects
    js (N : NativeModule') (w : World') :
  exists s,
    fst (getAvailabilityStatus js N w) = Resolved s /\
    (isModuleAvailable js = true ->
     match nm_getAvailabilityStatus N (log (Invoke "getAvailabilityStatus") w) with
     | (Resolved s0, _) => s = s0
     | (Rejected e, _) =>
         s = {| status := unknown; isAvailable_flag := false; reason := None;
                message := "Error checking availability: "
                           ++ message_or "Unknown error" e |}
     end).
Proof.
  unfold getAvailabilityStatus.
  destruct (isModuleAvailable js); simpl.
  - unfold_monad.
    destruct (nm_getAvailabilityStatus N _) as [[s0|e] w1]; simpl; eauto.
  - eexists; split; [reflexivity | discriminate].
Qed.

(** X18. What the status says when the load-time probe threw: the
    message of the error behind 'Native module failed to load: ', the
    text 'Unknown error loading native module' for a thrown value
    that is not an [Error], and, for an [Error] with an empty message,
    the same text as when nothing was thrown. *)
Theorem getAvailabilityStatus_reports_load_error
    (e : Thrown) (N : NativeModule') (w : World') :
  getAvailabilityStatus (load (BindingThrows e)) N w
  = (Resolved
       {| status := unsupported; isAvailable_flag := false; reason := None;
          message :=
            match e with
            | ErrorObj m =>
                if decide (m = EmptyString)
                then "Apple Intelligence is only available on iOS 26+ devices"
                else "Native module failed to load: " ++ m
            | NonError =>
                "Native module failed to load: Unknown error loading native module"
            end |}, w) /\
  getAvailabilityStatus (load (BindingThrows (ErrorObj EmptyString))) N w
  = getAvailabilityStatus (load BindingNullish) N w.
Proof.
  split; [|reflexivity].
  unfold getAvailabilityStatus, load_message. destruct e as [m|]; simpl.
  - by destruct (decide (m = EmptyString)).
  - reflexivity.
Qed.

(** X19. With the module loaded, [generateResponse] reaches the native
    function exactly for the prompts that are non-empty strings. Every
    other value (undefined, null, a boolean, an object, the empty
    string) is refused with 'Prompt must be a non-empty string' and
    the world unchanged. A non-empty string is passed on as it is: the
    native result is handed back, and a rejection becomes a failure
    result with the message of the error. *)
Theorem generateResponse_guards_the_prompt
    js (N : NativeModule') (prompt : JsValue) (w : World') :
  isModuleAvailable js = true ->
  generateResponse js N prompt w
  = match prompt with
    | JsString p =>
        if decide (p = EmptyString)
        then (Resolved (failed "Prompt must be a non-empty string"), w)
        else
          match nm_generateResponse N p (log (Invoke "generateResponse") w) with
          | (Resolved r, w') => (Resolved r, w')
          | (Rejected e, w') =>
              (Resolved (failed (message_or "Unknown error generating response" e)), w')
          end
    | _ => (Resolved (failed "Prompt must be a non-empty string"), w)
    end.
Proof.
  intros Hjs. unfold generateResponse. rewrite Hjs. simpl.
  destruct prompt as [| | [|] | p |]; simpl; try reflexivity.
  destruct (decide (p = EmptyString)); simpl; [reflexivity|].
  unfold_monad. by destruct (nm_generateResponse N p _) as [[r|e] w1].
Qed.

(** X20. [createSession] only ever rejects with an [Error], never with
    a raw thrown value, and its message has one of two shapes: the
    not-available text, or 'Failed to create session: ' before the
    message of what the native call threw. When it resolves, the
    native call resolved and the session has the identifier it gave. *)
Theorem createSession_rejections_are_errors
    js (N : NativeModule') options (w : World') :
  match createSession js N options w with
  | (Rejected e, _) =>
      e = ErrorObj "Apple Intelligence is not available on this device" \/
      exists e0 w0,
        nm_createSession N (systemPrompt_of options) (log (Invoke "createSession") w)
        = (Rejected e0, w0) /\
        e = ErrorObj ("Failed to create session: " ++ message_or "Unknown error" e0)
  | (Resolved s, w') =>
      nm_createSession N (systemPrompt_of options) (log (Invoke "createSession") w)
      = (Resolved (id s), w')
  end.
Proof.
  unfold createSession.
  destruct (isModuleAvailable js); simpl; [|by left].
  unfold_monad.
  destruct (nm_createSession N _ _) as [[sid|e0] w0]; simpl; eauto.
Qed.


(** X22. A session object of the API reaches the session it was made
    for: on iOS, when [createSession] resolves to a session, its
    [sendMessage] is answered in the state the seeding left, and after
    its [reset] in the state of a new session. *)
Theorem session_object_reaches_its_session
    js (options : option SessionOptions) (s : Session) (w w1 : World') :
  createSession js (native' (Ios true)) options w = (Resolved s, w1) ->
  forall message,
    fst (sendMessage (native' (Ios true)) s message w1)
    = Resolved (result_of_reply
                  (fst (respond_to
                          match seeding_prompt (systemPrompt_of options) with
                          | Some p => snd (respond_to empty_session ("System: " ++ p))
                          | None => empty_session
                          end message))) /\
    fst (sendMessage (native' (Ios true)) s message
           (snd (reset (native' (Ios true)) s w1)))
    = Resolved (result_of_reply (fst (respond_to empty_session message))).
Proof.
  unfold createSession.
  destruct (isModuleAvailable js); [|discriminate].
  unfold_monad.
  change (nm_createSession (native' (Ios true)))
    with (ios_createSession empty_session respond_to uuidString true).
  unfold negb. cbv beta iota.
  destruct (ios_createSession _ _ _ _ _ _) as [[sid|e] w0] eqn:Hrun;
    [|discriminate].
  intros [= <- <-] message.
  apply ios_createSession_resolved in Hrun as (_ & _ & _ & Hs & _ & Ho & _).
  assert (sessions w0 !! sid = Some (allocated (log (Invoke "createSession") w)))
    as Hl by (by rewrite Hs, lookup_insert_eq).
  simpl in Hl, Ho.
  unfold sendMessage, reset, invoke. simpl.
  unfold ios_sendSessionMessage, ios_resetSession. run.
  rewrite Hl. simpl. rewrite Ho. split.
  - by destruct (respond_to _ message) as [[text|description] s'].
  - rewrite lookup_insert_eq. simpl. unfold update at 1. rewrite Nat.eqb_refl.
    by destruct (respond_to empty_session message) as [[text|description] s'].
Qed.

(** *** More on the Swift functions *)

(** X23. The two availability functions of the iOS module are pure
    queries that agree: neither changes the world, [isAvailable] is the
    flag of the status, the status is [available] exactly behind the
    guard with the model available, and for an unavailable model the
    status carries the model's reason and the message ends with it. *)
Theorem ios_availability_queries (capable : bool) (w : World') :
  exists s,
    ios_getAvailabilityStatus capable w = (Resolved s, w) /\
    ios_isAvailable capable w = (Resolved (isAvailable_flag s), w) /\
    (status s = available <-> capable = true /\ availability w = ModelAvailable) /\
    (forall r, capable = true -> availability w = ModelUnavailable r ->
               status s = unavailable /\ reason s = Some r /\
               message s = "Apple Intelligence is not available: " ++ r).
Proof.
  unfold ios_getAvailabilityStatus, ios_isAvailable. destruct capable; run.
  - destruct (availability w) as [|r0|]; eexists;
      (split; [reflexivity|]); simpl; (split; [reflexivity|]);
      (split; [split; [try discriminate; by split | by intros [_ ?]]|]);
      intros r _ [=]; by subst.
  - eexists; split; [reflexivity|]. simpl. split; [reflexivity|].
    split; [split; [discriminate | by intros [? _]] | discriminate].
Qed.

(** X24. Once ended, an identifier is unknown: a message to it gets
    the session-not-found failure, whatever was registered before, and
    a reset of it does not bring it back. *)
Theorem ended_session_is_unknown (sessionId message : string) (w : World') :
  let w' := snd (ios_endSession true sessionId w) in
  ios_sendSessionMessage respond_to true sessionId message w'
  = (Resolved (failed "Session not found. Create a new session first."), w') /\
  ios_resetSession empty_session true sessionId w' = (Resolved tt, w').
Proof.
  unfold ios_endSession, ios_sendSessionMessage, ios_resetSession. run.
  by rewrite lookup_delete_eq.
Qed.

(** X25. Ending the session [createSession] just made gives back the
    registry from before the call, when the identifier was free. *)
Theorem createSession_then_endSession
    (capable : bool) (sp : option string) (sessionId : string) (w w1 : World') :
  ios_createSession empty_session respond_to uuidString capable sp w
    = (Resolved sessionId, w1) ->
  sessions w !! sessionId = None ->
  sessions (snd (ios_endSession capable sessionId w1)) = sessions w.
Proof.
  intros Hrun Hfree.
  apply ios_createSession_resolved in Hrun as (-> & _ & _ & Hs & _).
  unfold ios_endSession. run. rewrite Hs. by apply delete_insert_id.
Qed.

End Coverage.

Lemma two_sessions_reachable :
  reachable [] echo_respond echo_uuid true two_sessions.
Proof.
  apply reachable_call.
  apply (reachable_call [] echo_respond echo_uuid true (start ModelAvailable)
           (CallCreateSession (Some "Be brief"))).
  by apply reachable_start.
Qed.

Lemma three_sessions_consistent : consistent true three_sessions.
Proof.
  apply (reachable_consistent [] echo_respond echo_uuid).
  apply reachable_call, two_sessions_reachable.
Qed.

Lemma sendSessionMessage_forwards_to_handle_witness :
  exists w',
    ios_sendSessionMessage echo_respond true "7F3A" "hello" one_session
    = (Resolved (succeeded "echo: hello"), w') /\
    objects w' 0 = ["System: Be brief"; "hello"].
Proof.
  destruct (sendSessionMessage_forwards_to_handle echo_respond
              "7F3A" "hello" 0 one_session eq_refl)
    as (w' & Hrun & Ho & _).
  exists w'. split; [exact Hrun | exact Ho].
Defined.

Lemma sendSessionMessage_context_accumulates_witness :
  fst (ios_sendSessionMessage echo_respond true "7F3A" "again"
         (snd (ios_sendSessionMessage echo_respond true "7F3A" "hello" one_session)))
  = Resolved (succeeded "echo: again").
Proof.
  exact (sendSessionMessage_context_accumulates echo_respond
           "7F3A" "hello" "again" 0 one_session eq_refl).
Defined.

Lemma resetSession_discards_history_witness :
  fst (ios_sendSessionMessage echo_respond true "7F3A" "hello"
         (snd (ios_resetSession [] true "7F3A" one_session)))
  = Resolved (succeeded "echo: hello").
Proof.
  exact (resetSession_discards_history [] echo_respond
           "7F3A" "hello" 0 one_session eq_refl).
Defined.

Lemma createSession_then_sendSessionMessage_witness :
  sessions one_session !! "7F3A" = Some 0 /\
  fst (ios_sendSessionMessage echo_respond true "7F3A" "hello" one_session)
  = Resolved (succeeded "echo: hello").
Proof.
  destruct (createSession_then_sendSessionMessage [] echo_respond echo_uuid
              true (Some "Be brief") "7F3A" (start ModelAvailable) one_session
              eq_refl) as [Hl Hsend].
  split; [exact Hl | exact (Hsend "hello")].
Defined.

Lemma createSession_overwrites_taken_identifier_witness :
  sessions three_sessions !! "E5F6" = Some 2 /\
  sessions (after [] echo_respond echo_uuid true (CallCreateSession None)
              three_sessions) !! "E5F6" = Some 3.
Proof.
  split; [reflexivity|].
  apply (createSession_overwrites_taken_identifier [] echo_respond echo_uuid
           true None "E5F6" 2 three_sessions
           (after [] echo_respond echo_uuid true (CallCreateSession None)
              three_sessions)
           three_sessions_consistent eq_refl eq_refl).
Defined.

Lemma reachable_registry_invariant_witness :
  registry_injective two_sessions.
Proof.
  apply (reachable_registry_invariant [] echo_respond echo_uuid true two_sessions).
  exact two_sessions_reachable.
Defined.

Lemma sessions_are_isolated_witness :
  fst (ios_sendSessionMessage echo_respond true "C1D2" "second"
         (snd (ios_sendSessionMessage echo_respond true "7F3A" "first" two_sessions)))
  = fst (ios_sendSessionMessage echo_respond true "C1D2" "second" two_sessions).
Proof.
  apply (sessions_are_isolated [] echo_respond echo_uuid
           "7F3A" "C1D2" "first" "second" two_sessions two_sessions_reachable).
  - discriminate.
  - by exists 1.
Defined.

Lemma api_is_local_when_module_not_loaded_witness :
  isAvailable (load BindingNullish) (echo_ios true) (start ModelAvailable)
  = (Resolved false, start ModelAvailable).
Proof.
  apply (api_is_local_when_module_not_loaded (load BindingNullish) (echo_ios true)
           (start ModelAvailable) eq_refl).
Defined.

Lemma generateResponse_guards_the_prompt_witness :
  fst (generateResponse (load (BindingObject true)) (echo_ios true)
         (JsString "hi") (start ModelAvailable))
  = Resolved (succeeded "echo: hi") /\
  fst (generateResponse (load (BindingObject true)) (echo_ios true)
         (JsBoolean true) (start ModelAvailable))
  = Resolved (failed "Prompt must be a non-empty string").
Proof.
  split.
  - by rewrite (generateResponse_guards_the_prompt (load (BindingObject true))
                  (echo_ios true) (JsString "hi") (start ModelAvailable) eq_refl).
  - by rewrite (generateResponse_guards_the_prompt (load (BindingObject true))
                  (echo_ios true) (JsBoolean true) (start ModelAvailable) eq_refl).
Defined.


Lemma session_object_reaches_its_session_witness :
  let js := load (BindingObject true) in
  let N := native [] echo_respond echo_uuid (Ios true) in
  let w1 := snd (createSession js N (Some {| systemPrompt := Some "p" |})
                   (start ModelAvailable)) in
  fst (sendMessage N {| id := "7F3A" |} "hello" w1) = Resolved (succeeded "echo: hello").
Proof.
  intros js N w1.
  destruct (session_object_reaches_its_session [] echo_respond echo_uuid
              js (Some {| systemPrompt := Some "p" |}) {| id := "7F3A" |}
              (start ModelAvailable) w1 eq_refl "hello") as [Hsend _].
  exact Hsend.
Defined.

Lemma createSession_then_endSession_witness :
  sessions (snd (ios_endSession true "7F3A" one_session)) = ∅.
Proof.
  exact (createSession_then_endSession [] echo_respond echo_uuid
           true (Some "Be brief") "7F3A" (start ModelAvailable) one_session
           eq_refl eq_refl).
Defined.

(** ** The definitions, run *)

Example conversation_result :
  fst (conversation (start ModelAvailable))
  = Resolved ("7F3A", succeeded "echo: hello", succeeded "echo: hi again").
Proof. reflexivity. Qed.

(** The first handle saw the seed and the first message; the handle the
    reset made saw the second message only. *)
Example conversation_handles :
  let w := snd (conversation (start ModelAvailable)) in
  sessions w !! "7F3A" = Some 1 /\
  objects w 0 = ["System: p"; "hello"] /\
  objects w 1 = ["hi again"].
Proof. vm_compute. auto. Qed.

Example conversation_trace :
  trace (snd (conversation (start ModelAvailable)))
  = [Invoke "createSession"; NewSession 0; Respond 0 "System: p";
     Invoke "sendSessionMessage"; Respond 0 "hello";
     Invoke "resetSession"; NewSession 1;
     Invoke "sendSessionMessage"; Respond 1 "hi again"].
Proof. reflexivity. Qed.

(** After [endSession] the identifier is unknown again, and ending it a
    second time changes nothing. *)
Example ended_session_not_found :
  let w := snd (ios_endSession true "7F3A" one_session) in
  fst (ios_sendSessionMessage echo_respond true "7F3A" "hello" w)
  = Resolved (failed "Session not found. Create a new session first.") /\
  sessions (snd (ios_endSession true "7F3A" w)) = sessions w.
Proof. vm_compute. auto. Qed.

(** On a platform that reports the model unavailable. *)
Example unavailable_platform :
  let js := load (BindingObject true) in
  let w := start (ModelUnavailable "modelNotReady") in
  fst (isAvailable js (echo_ios true) w) = Resolved false /\
  fst (generateResponse js (echo_ios true) (JsString "hi") w)
  = Resolved (failed "Apple Intelligence is not available on this device") /\
  fst (createSession js (echo_ios true) None w)
  = Rejected (ErrorObj "Failed to create session: Apple Intelligence is not available") /\
  fst (getAvailabilityStatus js (echo_ios true) w)
  = Resolved {| status := unavailable; isAvailable_flag := false;
                reason := Some "modelNotReady";
                message := "Apple Intelligence is not available: modelNotReady" |}.
Proof. repeat split. Qed.
